(** * vnMedicalPaper: the query and pagination pipeline of [App.tsx]

    A shallow embedding of the [App] component of [src/App.tsx] (with the
    record type of [src/types.ts]): the derived values [filteredPapers],
    [totalPages] and [paginatedPapers], the asynchronous [loadData] and the
    hook state the component keeps between renders.

    JavaScript strings are sequences of UTF-16 code units; arrays are lists;
    the page number is a JavaScript number that only ever holds integers
    (it starts at 1 and is set by the page controls), modelled as [Z]. *)

From Stdlib Require Import ZArith NArith QArith Qround String Ascii Lia.
From stdpp Require Import base numbers list relations.

Close Scope Q_scope.
Open Scope Z_scope.

(** ** Strings *)

(** A string is the list of its UTF-16 code units. *)
Abbreviation jsstring := (list N).

(** The code units of a literal written in the source (all of them ASCII). *)
Definition lit (s : string) : jsstring :=
  N_of_ascii <$> list_ascii_of_string s.

(** [ToBoolean] on a string: only the empty string is falsy. *)
Definition truthy (s : jsstring) : bool :=
  match s with
  | [] => false
  | _ :: _ => true
  end.

(** The code units [String.prototype.trim] strips: ECMAScript's WhiteSpace
    (tab, vertical tab, form feed, space, no-break space, the byte order
    mark and the space separators of Unicode) and LineTerminator
    productions, all in the Basic Multilingual Plane. *)
Definition whiteSpaceUnits : list N :=
  [0x9; 0xA; 0xB; 0xC; 0xD; 0x20; 0xA0; 0x1680;
   0x2000; 0x2001; 0x2002; 0x2003; 0x2004; 0x2005; 0x2006; 0x2007;
   0x2008; 0x2009; 0x200A; 0x2028; 0x2029; 0x202F; 0x205F; 0x3000;
   0xFEFF]%N.

Definition isWhiteSpace (u : N) : bool := existsb (N.eqb u) whiteSpaceUnits.

Fixpoint trimStart (s : jsstring) : jsstring :=
  match s with
  | [] => []
  | u :: s' => if isWhiteSpace u then trimStart s' else s
  end.

Definition trimEnd (s : jsstring) : jsstring :=
  reverse (trimStart (reverse s)).

(** [s.trim()] *)
Definition trim (s : jsstring) : jsstring := trimEnd (trimStart s).

(** A string made of white space only (the empty string included). *)
Definition blank (s : jsstring) : bool := forallb isWhiteSpace s.

Fixpoint startsWith (s q : jsstring) {struct q} : bool :=
  match q, s with
  | [], _ => true
  | _ :: _, [] => false
  | v :: q', u :: s' => (u =? v)%N && startsWith s' q'
  end.

(** [s.includes(q)]: [q] occurs in [s] at some position, searched from 0. *)
Fixpoint includes (s q : jsstring) : bool :=
  startsWith s q ||
  match s with
  | [] => false
  | _ :: s' => includes s' q
  end.

(** [q] is a substring of [s]. *)
Definition substring (q s : jsstring) : Prop :=
  ∃ pre post, s = pre ++ q ++ post.

(** ** A lower-casing for Vietnamese text

    [String.prototype.toLowerCase] is a built-in whose table is the Unicode
    character database; the development is parametric in it (see the section
    below). For closed examples it is instantiated with the mapping on the
    letters of the Vietnamese alphabet: Basic Latin, the Latin-1 capitals,
    Ă Đ Ĩ Ũ Ơ Ư and the precomposed letters U+1EA0 to U+1EF9. On these the
    built-in works code unit by code unit, without context. *)
Definition lowerUnitVi (u : N) : N :=
  (if (0x41 <=? u) && (u <=? 0x5A) then u + 0x20
   else if (0xC0 <=? u) && (u <=? 0xDE) && negb (u =? 0xD7) then u + 0x20
   else if (u =? 0x102) || (u =? 0x110) || (u =? 0x128) || (u =? 0x168)
           || (u =? 0x1A0) || (u =? 0x1AF) then u + 1
   else if (0x1EA0 <=? u) && (u <=? 0x1EF9) && N.even u then u + 1
   else u)%N.

Definition toLowerCaseVi (s : jsstring) : jsstring := lowerUnitVi <$> s.

(** ** Records ([types.ts]) *)

Record Paper := {
  Journal : jsstring;
  Organization : jsstring;
  PublishedDate : jsstring;
  Authors : jsstring;
  Title : jsstring;
  TitleURL : jsstring;
  PdfURL : jsstring;
  VolURL : jsstring;
  VolTitle : jsstring
}.

(** ** Arrays *)

(** One bound of [Array.prototype.slice] on an array of [len] elements: a
    negative index counts from the end, and the result is clamped to
    [0 .. len]. *)
Definition relativeIndex (len i : Z) : Z :=
  if i <? 0 then Z.max (len + i) 0 else Z.min i len.

(** [a.slice(start, end)] *)
Definition slice {A} (a : list A) (start end_ : Z) : list A :=
  let len := Z.of_nat (length a) in
  let k := relativeIndex len start in
  let final := relativeIndex len end_ in
  let count := Z.max (final - k) 0 in
  take (Z.to_nat count) (drop (Z.to_nat k) a).

(** [Math.ceil(n / d)] on integers [n] and [d]. The quotient is taken in the
    rationals: for the lengths an array can have, the floating-point
    quotient has the same ceiling as the exact one. *)
Definition Math_ceil_div (n d : Z) : Z :=
  Qceiling (inject_Z n / inject_Z d)%Q.

(** ** The derived values of the component *)

Definition ITEMS_PER_PAGE : Z := 20.

Section Derived.

(** [String.prototype.toLowerCase] *)
Variable toLowerCase : jsstring → jsstring.

(** The predicate handed to [papers.filter]. *)
Definition matchesQuery (query : jsstring) (paper : Paper) : bool :=
  includes (toLowerCase (Title paper)) query ||
  includes (toLowerCase (Authors paper)) query ||
  includes (toLowerCase (Journal paper)) query.

Definition filteredPapers (papers : list Paper) (searchQuery : jsstring)
  : list Paper :=
  let query := trim (toLowerCase searchQuery) in
  if negb (truthy query) then papers
  else List.filter (matchesQuery query) papers.

End Derived.

(** The page count and the page slice, for a page size [itemsPerPage]; the
    component uses them at [ITEMS_PER_PAGE]. *)
Section Pagination.

Variable itemsPerPage : Z.

Definition totalPagesOf (filteredPapers : list Paper) : Z :=
  Math_ceil_div (Z.of_nat (length filteredPapers)) itemsPerPage.

Definition pageSlice (filteredPapers : list Paper) (currentPage : Z)
  : list Paper :=
  let startIndex := (currentPage - 1) * itemsPerPage in
  let endIndex := startIndex + itemsPerPage in
  slice filteredPapers startIndex endIndex.

End Pagination.

Definition totalPages : list Paper → Z := totalPagesOf ITEMS_PER_PAGE.

Definition paginatedPapers : list Paper → Z → list Paper :=
  pageSlice ITEMS_PER_PAGE.

(** ** Hook state

    The five [useState] cells of [App], with their initial values. *)

Record State := {
  papers : list Paper;
  searchQuery : jsstring;
  isLoading : bool;
  error : option jsstring;
  currentPage : Z
}.

Definition initialState : State :=
  {| papers := []; searchQuery := []; isLoading := true; error := None;
     currentPage := 1 |}.

Definition setPapers (data : list Paper) (σ : State) : State :=
  {| papers := data; searchQuery := searchQuery σ; isLoading := isLoading σ;
     error := error σ; currentPage := currentPage σ |}.

Definition setSearchQuery (value : jsstring) (σ : State) : State :=
  {| papers := papers σ; searchQuery := value; isLoading := isLoading σ;
     error := error σ; currentPage := currentPage σ |}.

Definition setIsLoading (b : bool) (σ : State) : State :=
  {| papers := papers σ; searchQuery := searchQuery σ; isLoading := b;
     error := error σ; currentPage := currentPage σ |}.

Definition setError (message : option jsstring) (σ : State) : State :=
  {| papers := papers σ; searchQuery := searchQuery σ;
     isLoading := isLoading σ; error := message;
     currentPage := currentPage σ |}.

Definition setCurrentPage (page : Z) (σ : State) : State :=
  {| papers := papers σ; searchQuery := searchQuery σ;
     isLoading := isLoading σ; error := error σ; currentPage := page |}.

(** What one render computes from the state. *)
Record View := {
  viewFiltered : list Paper;
  viewTotalPages : Z;
  viewPaginated : list Paper
}.

Definition render (toLowerCase : jsstring → jsstring) (σ : State) : View :=
  let filtered := filteredPapers toLowerCase (papers σ) (searchQuery σ) in
  {| viewFiltered := filtered;
     viewTotalPages := totalPages filtered;
     viewPaginated := paginatedPapers filtered (currentPage σ) |}.

(** ** Asynchronous code

    A thrown value is an [Error] with its message, or something else. The
    promise of the ingestion service settles with the parsed records or
    with a thrown value. *)

Inductive Thrown :=
| ErrorObject (message : jsstring)
| OtherValue.

Inductive Outcome :=
| Fulfilled (data : list Paper)
| Rejected (e : Thrown).

(** A run of asynchronous code over the hook state: it completes, throws,
    or is suspended at the [await] of a request to the ingestion service,
    to be resumed with the way the promise settled and the state of that
    moment. *)
Inductive Run (A : Type) : Type :=
| Done (a : A) (σ : State)
| Threw (e : Thrown) (σ : State)
| Awaiting (url : jsstring) (σ : State) (k : Outcome → State → Run A).

Arguments Done {A} a σ.
Arguments Threw {A} e σ.
Arguments Awaiting {A} url σ k.

Definition M (A : Type) : Type := State → Run A.

Fixpoint bind_run {A B} (r : Run A) (f : A → M B) : Run B :=
  match r with
  | Done a σ => f a σ
  | Threw e σ => Threw e σ
  | Awaiting url σ k => Awaiting url σ (λ s σ', bind_run (k s σ') f)
  end.

#[global] Instance M_ret : MRet M := λ A a σ, Done a σ.
#[global] Instance M_bind : MBind M := λ A B f m σ, bind_run (m σ) f.

Definition throw {A} (e : Thrown) : M A := λ σ, Threw e σ.

(** A state setter as a statement. *)
Definition call (set : State → State) : M unit := λ σ, Done () (set σ).

Fixpoint catch_run {A} (r : Run A) (handler : Thrown → M A) : Run A :=
  match r with
  | Done a σ => Done a σ
  | Threw e σ => handler e σ
  | Awaiting url σ k => Awaiting url σ (λ s σ', catch_run (k s σ') handler)
  end.

Fixpoint finally_run {A} (r : Run A) (finalizer : M unit) : Run A :=
  match r with
  | Done a σ => bind_run (finalizer σ) (λ _, mret a)
  | Threw e σ => bind_run (finalizer σ) (λ _, throw e)
  | Awaiting url σ k => Awaiting url σ (λ s σ', finally_run (k s σ') finalizer)
  end.

(** [try { body } catch (e) { handler e } finally { finalizer }] *)
Definition try_catch_finally {A} (body : M A) (handler : Thrown → M A)
    (finalizer : M unit) : M A :=
  λ σ, finally_run (catch_run (body σ) handler) finalizer.

(** [await fetchAndParseSheetData(url)]. The service lives in
    [services/googleSheetService]; here it is the one request a run makes
    to its environment, which answers with an [Outcome]. *)
Definition fetchAndParseSheetData (url : jsstring) : M (list Paper) :=
  λ σ, Awaiting url σ (λ s σ',
    match s with
    | Fulfilled data => Done data σ'
    | Rejected e => Threw e σ'
    end).

(** The URL a run is waiting on, if it is suspended. *)
Definition requested {A} (r : Run A) : option jsstring :=
  match r with
  | Awaiting url _ _ => Some url
  | _ => None
  end.

(** ** Loading *)

Definition GOOGLE_SHEET_CSV_URL : jsstring :=
  lit "https://docs.google.com/spreadsheets/d/e/2PACX-1vSHAAiPFIlWiXooENqd4nDAqOzUfUNUlQoH-qQlCdnFTVmtnyeh1fbS-HNvnCtWb2Xp4YP0Ws8Xm_xS/pub?output=csv".

Definition placeholder : jsstring := lit "YOUR_URL_HERE".

Definition configurationMessage : jsstring :=
  lit "Please replace the placeholder Google Sheet URL in App.tsx.".

Definition unknownMessage : jsstring := lit "An unknown error occurred.".

(** The message the [catch] block records for a thrown value. *)
Definition messageOf (e : Thrown) : jsstring :=
  match e with
  | ErrorObject message => message
  | OtherValue => unknownMessage
  end.

(** [loadData], for a configured URL [url]. *)
Definition loadData (url : jsstring) : M unit :=
  try_catch_finally
    (call (setIsLoading true) ;;
     call (setError None) ;;
     (if negb (truthy url) || includes url placeholder
      then throw (ErrorObject configurationMessage)
      else mret ()) ;;
     data ← fetchAndParseSheetData url ;
     call (setPapers data))
    (λ e,
       match e with
       | ErrorObject message => call (setError (Some message))
       | OtherValue => call (setError (Some unknownMessage))
       end)
    (call (setIsLoading false)).

(** ** The component between renders

    Besides the hook state React keeps, per mounted component, what its
    effects need: whether the mount effect (dependencies [[]]) has run and
    what became of the load it started, and the dependencies
    [[searchQuery]] the reset effect last ran with. [fetched] logs the URLs
    handed to the ingestion service.

    A render is committed before its passive effects run: after an event
    handler has set state the component is [Rendered] with the new state,
    and only then are the effects flushed, which leaves it [Settled] (a
    state set by an effect is rendered too; the flush after that render
    finds nothing to do and is not a step of its own). *)

Inductive Load :=
| NotStarted
| Pending (k : Outcome → State → Run unit)
| Finished.

Inductive Phase := Rendered | Settled.

Record Fiber := {
  hooks : State;
  resetDeps : option jsstring;
  load : Load;
  fetched : list jsstring;
  phase : Phase
}.

Definition initialFiber : Fiber :=
  {| hooks := initialState; resetDeps := None; load := NotStarted;
     fetched := []; phase := Rendered |}.

Inductive Event :=
| OnChange (value : jsstring)
| OnPageChange (page : Z)
| Settle (s : Outcome).

Definition isPending (l : Load) : bool :=
  match l with
  | Pending _ => true
  | _ => false
  end.

(** The promise can only settle while the load is waiting for it; the
    input and the page controls can fire at any time. *)
Definition enabled (e : Event) (f : Fiber) : bool :=
  match e with
  | Settle _ => isPending (load f)
  | _ => true
  end.

(** Take a run of [loadData] as far as it goes. *)
Definition absorb (r : Run unit) (f : Fiber) : Fiber :=
  match r with
  | Done _ σ | Threw _ σ =>
      {| hooks := σ; resetDeps := resetDeps f; load := Finished;
         fetched := fetched f; phase := phase f |}
  | Awaiting url σ k =>
      {| hooks := σ; resetDeps := resetDeps f; load := Pending k;
         fetched := fetched f ++ [url]; phase := phase f |}
  end.

Definition withHooks (set : State → State) (f : Fiber) : Fiber :=
  {| hooks := set (hooks f); resetDeps := resetDeps f; load := load f;
     fetched := fetched f; phase := phase f |}.

Definition withPhase (p : Phase) (f : Fiber) : Fiber :=
  {| hooks := hooks f; resetDeps := resetDeps f; load := load f;
     fetched := fetched f; phase := p |}.

(** An event handler (or the resumption of [loadData]) sets state, and the
    component is rendered with it. *)
Definition dispatch (e : Event) (f : Fiber) : Fiber :=
  withPhase Rendered
    match e with
    | OnChange value => withHooks (setSearchQuery value) f
    | OnPageChange page => withHooks (setCurrentPage page) f
    | Settle s =>
        match load f with
        | Pending k => absorb (k s (hooks f)) f
        | _ => f
        end
    end.

Section Component.

(** The configured source URL ([GOOGLE_SHEET_CSV_URL] in the source). *)
Variable url : jsstring.

(** [useEffect(() => { ...; loadData(); }, [])]: on the first commit. *)
Definition mountEffect (f : Fiber) : Fiber :=
  match load f with
  | NotStarted => absorb (loadData url (hooks f)) f
  | _ => f
  end.

(** [useEffect(() => { setCurrentPage(1); }, [searchQuery])]: on the first
    commit and after every render whose [searchQuery] differs from the
    one the effect last ran with. *)
Definition resetEffect (f : Fiber) : Fiber :=
  if decide (resetDeps f = Some (searchQuery (hooks f))) then f
  else
    {| hooks := setCurrentPage 1 (hooks f);
       resetDeps := Some (searchQuery (hooks f));
       load := load f; fetched := fetched f; phase := phase f |}.

(** The passive effects of a committed render, in source order. *)
Definition flushEffects (f : Fiber) : Fiber :=
  withPhase Settled (resetEffect (mountEffect f)).

Inductive step : Fiber → Fiber → Prop :=
| step_event e f :
    phase f = Settled → enabled e f = true → step f (dispatch e f)
| step_effects f :
    phase f = Rendered → step f (flushEffects f).

Definition reachable (f : Fiber) : Prop := rtc step initialFiber f.

(** An event together with the effects of the render it causes. *)
Definition react (e : Event) (f : Fiber) : Fiber :=
  flushEffects (dispatch e f).

End Component.

(** ** What a render shows

    The children of [<main>] below the search box, in document order: the
    spinner, the error panel with the message, and, once loaded without an
    error, the table with the page controls (with the props they receive)
    or the "No Results Found" panel. [error && ...] and [!error] test the
    message for truthiness: [null] and the empty string are falsy. *)

Inductive Panel :=
| LoadingSpinner
| ErrorPanel (message : jsstring)
| Results (tablePapers : list Paper) (page pages : Z)
| NoResults.

Definition truthyError (error : option jsstring) : bool :=
  match error with
  | Some message => truthy message
  | None => false
  end.

Definition screen (toLowerCase : jsstring → jsstring) (σ : State)
  : list Panel :=
  let v := render toLowerCase σ in
  (if isLoading σ then [LoadingSpinner] else [])
  ++ match error σ with
     | Some message => if truthy message then [ErrorPanel message] else []
     | None => []
     end
  ++ (if negb (isLoading σ) && negb (truthyError (error σ))
      then [if 0 <? Z.of_nat (length (viewFiltered v))
            then Results (viewPaginated v) (currentPage σ) (viewTotalPages v)
            else NoResults]
      else []).

(** ** Sample data for closed examples *)

Definition paper (title authors journal : string) : Paper :=
  {| Journal := lit journal; Organization := []; PublishedDate := [];
     Authors := lit authors; Title := lit title; TitleURL := [];
     PdfURL := []; VolURL := []; VolTitle := [] |}.

(** Twenty papers on one subject and one on another. *)
Definition sample21 : list Paper :=
  repeat (paper "Sot xuat huyet" "Nguyen Van A" "Tap chi Y hoc") 20
  ++ [paper "Benh lao phoi" "Tran Thi B" "Tap chi Y hoc"].

(** The end-to-end scenario of the specification: 45 rows. *)
Definition sample45 : list Paper :=
  repeat (paper "Sot xuat huyet" "Nguyen Van A" "Tap chi Y hoc") 45.

(** A configuration still holding the placeholder. *)
Definition templateURL : jsstring :=
  lit "https://docs.google.com/spreadsheets/d/e/YOUR_URL_HERE/pub?output=csv".

(** Mounted with a good URL, the 21 papers loaded, page 2 clicked. *)
Definition onPage2 : Fiber :=
  react GOOGLE_SHEET_CSV_URL (OnPageChange 2)
    (react GOOGLE_SHEET_CSV_URL (Settle (Fulfilled sample21))
       (flushEffects GOOGLE_SHEET_CSV_URL initialFiber)).

(** The render that follows typing a query on page 2, and the state after
    its effects. *)
Definition typedLao : Fiber := dispatch (OnChange (lit "lao")) onPage2.

Definition typedLaoSettled : Fiber :=
  flushEffects GOOGLE_SHEET_CSV_URL typedLao.

(** ** Vocabulary of the statements *)

(** The record matches the normalized query in one of the three fields. *)
Definition Matches (toLowerCase : jsstring → jsstring) (query : jsstring)
    (p : Paper) : Prop :=
  substring query (toLowerCase (Title p)) ∨
  substring query (toLowerCase (Authors p)) ∨
  substring query (toLowerCase (Journal p)).

(** Lower-casing leaves white space alone: no white-space character has a
    case mapping. *)
Definition keepsBlanks (toLowerCase : jsstring → jsstring) : Prop :=
  ∀ s, blank s = true → toLowerCase s = s.

(** The configured URL is missing or still holds the placeholder. *)
Definition misconfigured (url : jsstring) : Prop :=
  url = [] ∨ substring placeholder url.

(** The state [loadData] leaves when it is resumed at state [σ] with the
    outcome [s] of the request. *)
Definition resumed (s : Outcome) (σ : State) : State :=
  match s with
  | Fulfilled data => setIsLoading false (setPapers data σ)
  | Rejected e => setIsLoading false (setError (Some (messageOf e)) σ)
  end.

(** What holds of the component in every state it can reach, by the stage
    of its load. *)
Definition invariant (url : jsstring) (f : Fiber) : Prop :=
  (phase f = Settled → resetDeps f = Some (searchQuery (hooks f)))
  ∧ match load f with
    | NotStarted =>
        phase f = Rendered ∧ fetched f = []
        ∧ papers (hooks f) = [] ∧ error (hooks f) = None
    | Pending k =>
        ¬ misconfigured url ∧ fetched f = [url]
        ∧ papers (hooks f) = [] ∧ error (hooks f) = None
        ∧ ∀ s σ, k s σ = Done () (resumed s σ)
    | Finished =>
        (papers (hooks f) = [] ∨ error (hooks f) = None)
        ∧ (misconfigured url →
           fetched f = [] ∧ papers (hooks f) = []
           ∧ error (hooks f) = Some configurationMessage)
    end.

(** How far the load has come shows in the hook state and in the log of
    requests. *)
Definition loadInvariant (url : jsstring) (f : Fiber) : Prop :=
  match load f with
  | NotStarted =>
      isLoading (hooks f) = true ∧ error (hooks f) = None ∧ fetched f = []
  | Pending _ =>
      isLoading (hooks f) = true ∧ error (hooks f) = None
      ∧ fetched f = [url]
  | Finished =>
      isLoading (hooks f) = false
      ∧ (fetched f = [] ∧ misconfigured url
         ∨ fetched f = [url] ∧ ¬ misconfigured url)
  end.

(** The query as the filter uses it. *)
Definition normalized (toLowerCase : jsstring → jsstring) (q : jsstring)
  : jsstring :=
  trim (toLowerCase q).

(** Lower-casing and trimming can be done in either order. *)
Definition commutesWithTrim (toLowerCase : jsstring → jsstring) : Prop :=
  ∀ s, trim (toLowerCase s) = toLowerCase (trim s).

(** The 21 papers being fetched: mounted, the request not yet answered. *)
Definition fetching : Fiber := flushEffects GOOGLE_SHEET_CSV_URL initialFiber.

(** The 21 papers loaded, nothing typed or clicked yet. *)
Definition loaded21 : Fiber :=
  react GOOGLE_SHEET_CSV_URL (Settle (Fulfilled sample21)) fetching.

(** * Properties *)

(** ** Strings *)

Lemma startsWith_spec (s q : jsstring) :
  startsWith s q = true ↔ ∃ post, s = q ++ post.
Proof.
  revert s. induction q as [|v q IH]; intros s; simpl.
  - split; [intros _; by exists s | done].
  - destruct s as [|u s].
    + split; [done | intros [post Hpost]; discriminate Hpost].
    + rewrite andb_true_iff, N.eqb_eq, IH. split.
      * intros [-> [post ->]]. by exists post.
      * intros [post Hpost]. injection Hpost as -> ->. eauto.
Qed.

Lemma includes_spec (s q : jsstring) :
  includes s q = true ↔ substring q s.
Proof.
  unfold substring. induction s as [|u s IH]; simpl.
  - rewrite orb_false_r, startsWith_spec. split.
    + intros [post ->]. by exists [], post.
    + intros [pre [post Heq]]. destruct pre; [by exists post | done].
  - rewrite orb_true_iff, startsWith_spec, IH. split.
    + intros [[post ->] | (pre & post & ->)].
      * by exists [], post.
      * by exists (u :: pre), post.
    + intros [[|u' pre] [post Heq]].
      * left. by exists post.
      * right. injection Heq as -> ->. eauto.
Qed.

Lemma substring_nil (s : jsstring) : substring [] s.
Proof. by exists [], s. Qed.

Lemma trimStart_blank (s : jsstring) : blank s = true → trimStart s = [].
Proof.
  induction s as [|u s IH]; simpl; [done |].
  rewrite andb_true_iff. intros [-> Hs]. auto.
Qed.

Lemma trim_blank (s : jsstring) : blank s = true → trim s = [].
Proof. intros Hs. unfold trim. by rewrite trimStart_blank. Qed.

(** ** The query engine *)

Section Query.

Variable toLowerCase : jsstring → jsstring.

Lemma matchesQuery_spec (query : jsstring) (p : Paper) :
  matchesQuery toLowerCase query p = true ↔ Matches toLowerCase query p.
Proof.
  unfold matchesQuery, Matches.
  rewrite !orb_true_iff, !includes_spec. tauto.
Qed.

Lemma matchesQuery_false (query : jsstring) (p : Paper) :
  matchesQuery toLowerCase query p = false ↔ ¬ Matches toLowerCase query p.
Proof. rewrite <- matchesQuery_spec. by destruct (matchesQuery _ _ _). Qed.

Lemma filteredPapers_empty_query (papers : list Paper) (q : jsstring) :
  trim (toLowerCase q) = [] → filteredPapers toLowerCase papers q = papers.
Proof. unfold filteredPapers. by intros ->. Qed.

Lemma filteredPapers_filter (papers : list Paper) (q : jsstring) :
  trim (toLowerCase q) ≠ [] →
  filteredPapers toLowerCase papers q
  = List.filter (matchesQuery toLowerCase (trim (toLowerCase q))) papers.
Proof.
  unfold filteredPapers. by destruct (trim (toLowerCase q)).
Qed.

Lemma filter_sublist_of {A} (keep : A → bool) (l : list A) :
  List.filter keep l `sublist_of` l.
Proof.
  induction l as [|x l IH]; simpl; [constructor |].
  destruct (keep x); by constructor.
Qed.

Lemma elem_of_filter_bool {A} (keep : A → bool) (l : list A) (x : A) :
  x ∈ List.filter keep l ↔ x ∈ l ∧ keep x = true.
Proof. by rewrite !list_elem_of_In, filter_In. Qed.

Lemma filteredPapers_elem_of (papers : list Paper) (q : jsstring) (p : Paper) :
  p ∈ filteredPapers toLowerCase papers q →
  p ∈ papers ∧ Matches toLowerCase (trim (toLowerCase q)) p.
Proof.
  destruct (decide (trim (toLowerCase q) = [])) as [Hq | Hq].
  - rewrite filteredPapers_empty_query, Hq by done.
    intros Hp. split; [done |]. left. apply substring_nil.
  - rewrite filteredPapers_filter, elem_of_filter_bool by done.
    by rewrite matchesQuery_spec.
Qed.

(** For a query without white space around it, the kept records match the
    lower-cased query itself. *)
Lemma filteredPapers_elem_of_untrimmed (papers : list Paper) (q : jsstring)
    (p : Paper) :
  trim (toLowerCase q) = toLowerCase q →
  p ∈ filteredPapers toLowerCase papers q →
  Matches toLowerCase (toLowerCase q) p.
Proof.
  intros Hq Hp. apply filteredPapers_elem_of in Hp as [_ Hp].
  by rewrite Hq in Hp.
Qed.

(** C1. For a query that is not empty once lower-cased and trimmed, a
    record is kept if and only if its lower-cased Title, Authors or
    Journal contains the normalized query; this holds occurrence by
    occurrence, and the kept records are a subsequence of the input, in
    the input's order. *)
Theorem filteredPapers_keeps_matches (papers : list Paper) (q : jsstring) :
  let query := trim (toLowerCase q) in
  query ≠ [] →
  (∀ p, p ∈ filteredPapers toLowerCase papers q
        ↔ p ∈ papers ∧ Matches toLowerCase query p)
  ∧ (∀ l1 p l2, papers = l1 ++ p :: l2 →
       (Matches toLowerCase query p →
        filteredPapers toLowerCase papers q
        = filteredPapers toLowerCase l1 q
          ++ p :: filteredPapers toLowerCase l2 q)
       ∧ (¬ Matches toLowerCase query p →
          filteredPapers toLowerCase papers q
          = filteredPapers toLowerCase l1 q
            ++ filteredPapers toLowerCase l2 q))
  ∧ filteredPapers toLowerCase papers q `sublist_of` papers.
Proof.
  intros query Hq. subst query. split; [| split].
  - intros p.
    by rewrite filteredPapers_filter, elem_of_filter_bool, matchesQuery_spec.
  - intros l1 p l2 ->. rewrite !filteredPapers_filter by done.
    rewrite List.filter_app. simpl. split.
    + intros Hp. apply matchesQuery_spec in Hp. by rewrite Hp.
    + intros Hp. apply matchesQuery_false in Hp. by rewrite Hp.
  - rewrite filteredPapers_filter by done. apply filter_sublist_of.
Qed.

(** C6, as the code has it: every record kept for a non-empty query
    matches the query lower-cased and trimmed. *)
Theorem filteredPapers_sound (papers : list Paper) (q : jsstring) :
  q ≠ [] →
  ∀ p, p ∈ filteredPapers toLowerCase papers q →
       Matches toLowerCase (trim (toLowerCase q)) p.
Proof. intros _ p Hp. by apply filteredPapers_elem_of in Hp as [_ Hp]. Qed.

Lemma filteredPapers_blank (papers : list Paper) (q : jsstring) :
  keepsBlanks toLowerCase → blank q = true →
  filteredPapers toLowerCase papers q = papers.
Proof.
  intros Hlower Hq. apply filteredPapers_empty_query.
  rewrite Hlower by done. by apply trim_blank.
Qed.

(** C4. With the empty query and with a query of three spaces the filter
    is the identity. *)
Theorem filteredPapers_identity (papers : list Paper) :
  keepsBlanks toLowerCase →
  filteredPapers toLowerCase papers [] = papers
  ∧ filteredPapers toLowerCase papers (lit "   ") = papers.
Proof. intros Hlower. split; by apply filteredPapers_blank. Qed.

End Query.

(** ** The pagination engine *)

Lemma Math_ceil_div_eq (n d : Z) :
  0 < d → Math_ceil_div n d = - ((- n) `div` d).
Proof.
  intros Hd. destruct d as [|p|p]; try lia.
  unfold Math_ceil_div, Qceiling, Qfloor. cbn.
  by rewrite Z.mul_1_r, Pos.mul_1_l.
Qed.

(** The ceiling of [n / d] is the integer [t] with [t - 1 < n / d <= t]. *)
Lemma Math_ceil_div_bounds (n d : Z) :
  0 < d → (Math_ceil_div n d - 1) * d < n ≤ Math_ceil_div n d * d.
Proof.
  intros Hd. rewrite Math_ceil_div_eq by done.
  pose proof (Z.div_mod (- n) d) as Hdiv.
  pose proof (Z.mod_pos_bound (- n) d Hd) as Hmod.
  nia.
Qed.

Lemma Math_ceil_div_0 (d : Z) : 0 < d → Math_ceil_div 0 d = 0.
Proof. intros Hd. pose proof (Math_ceil_div_bounds 0 d Hd). nia. Qed.

Lemma Math_ceil_div_nonneg (n d : Z) : 0 ≤ n → 0 < d → 0 ≤ Math_ceil_div n d.
Proof. intros Hn Hd. pose proof (Math_ceil_div_bounds n d Hd). nia. Qed.

Lemma slice_length {A} (a : list A) (i j : Z) :
  i ≤ j → Z.of_nat (length (slice a i j)) ≤ j - i.
Proof.
  intros Hij. unfold slice, relativeIndex. rewrite length_take.
  destruct (Z.ltb_spec i 0), (Z.ltb_spec j 0); lia.
Qed.

(** Between two indices that are not negative, [slice] is [take] after
    [drop]: both clamp at the end of the list. *)
Lemma slice_nonneg {A} (a : list A) (i j : Z) :
  0 ≤ i → i ≤ j →
  slice a i j = take (Z.to_nat (j - i)) (drop (Z.to_nat i) a).
Proof.
  intros Hi Hij. unfold slice, relativeIndex.
  destruct (Z.ltb_spec i 0), (Z.ltb_spec j 0); try lia.
  destruct (Z.le_gt_cases (Z.of_nat (length a)) i) as [Hlen | Hlen].
  - rewrite !(drop_ge a) by lia. by rewrite !take_nil.
  - rewrite (Z.min_l i) by lia.
    destruct (Z.le_gt_cases j (Z.of_nat (length a))) as [Hj | Hj].
    + by rewrite Z.min_l, Z.max_l by lia.
    + rewrite !take_ge; [done | |]; rewrite length_drop; lia.
Qed.

Section Pages.

Variable itemsPerPage : Z.
Hypothesis itemsPerPage_pos : 0 < itemsPerPage.

Lemma pageSlice_take_drop (l : list Paper) (page : Z) :
  1 ≤ page →
  pageSlice itemsPerPage l page
  = take (Z.to_nat itemsPerPage)
      (drop (Z.to_nat ((page - 1) * itemsPerPage)) l).
Proof.
  intros Hpage. unfold pageSlice. rewrite slice_nonneg by nia.
  do 2 f_equal. lia.
Qed.

(** The first [n] pages, one after the other, are the first
    [n * itemsPerPage] records. *)
Lemma pageSlice_prefix (l : list Paper) (n : nat) :
  concat (pageSlice itemsPerPage l <$> seqZ 1 (Z.of_nat n))
  = take (Z.to_nat (Z.of_nat n * itemsPerPage)) l.
Proof.
  induction n as [|n IH].
  - by rewrite take_0.
  - rewrite seqZ_S, fmap_app, concat_app, IH. simpl.
    rewrite app_nil_r, pageSlice_take_drop by lia.
    replace (1 + Z.of_nat n - 1) with (Z.of_nat n) by lia.
    rewrite take_take_drop. f_equal. nia.
Qed.

Lemma pageSlice_partition (l : list Paper) :
  concat (pageSlice itemsPerPage l <$> seqZ 1 (totalPagesOf itemsPerPage l))
  = l.
Proof.
  unfold totalPagesOf.
  pose proof (Math_ceil_div_bounds (Z.of_nat (length l)) _ itemsPerPage_pos).
  pose proof (Math_ceil_div_nonneg (Z.of_nat (length l)) _
                ltac:(lia) itemsPerPage_pos) as Hpos.
  rewrite <- (Z2Nat.id _ Hpos), pageSlice_prefix, Z2Nat.id by done.
  apply take_ge. lia.
Qed.

(** C3. The page count is the ceiling of the record count over the page
    size, that is the integer [t] with [t - 1 < count / size <= t]; it
    is 0 for no records. *)
Theorem totalPagesOf_ceiling (l : list Paper) :
  (totalPagesOf itemsPerPage l - 1) * itemsPerPage
    < Z.of_nat (length l) ≤ totalPagesOf itemsPerPage l * itemsPerPage
  ∧ (l = [] → totalPagesOf itemsPerPage l = 0).
Proof.
  split.
  - by apply Math_ceil_div_bounds.
  - intros ->. by apply Math_ceil_div_0.
Qed.

(** C5. A page past the last one is the empty slice; [slice] is total,
    there is no failure to speak of. *)
Theorem pageSlice_beyond (l : list Paper) (page : Z) :
  totalPagesOf itemsPerPage l < page →
  pageSlice itemsPerPage l page = [].
Proof.
  intros Hpage. unfold totalPagesOf in Hpage.
  pose proof (Math_ceil_div_bounds (Z.of_nat (length l)) _ itemsPerPage_pos).
  pose proof (Math_ceil_div_nonneg (Z.of_nat (length l)) _
                ltac:(lia) itemsPerPage_pos).
  rewrite pageSlice_take_drop by lia.
  rewrite drop_ge by nia. apply take_nil.
Qed.

End Pages.

Lemma ITEMS_PER_PAGE_pos : 0 < ITEMS_PER_PAGE.
Proof. done. Qed.

(** C2. The pages 1 to [totalPages], one after the other, are the records:
    every record on exactly one page, in order. *)
Theorem paginatedPapers_partition (l : list Paper) :
  concat (paginatedPapers l <$> seqZ 1 (totalPages l)) = l.
Proof. apply pageSlice_partition, ITEMS_PER_PAGE_pos. Qed.

(** C10. Whatever the page number, a page holds at most [ITEMS_PER_PAGE],
    that is 20, records. *)
Theorem paginatedPapers_length (l : list Paper) (page : Z) :
  Z.of_nat (length (paginatedPapers l page)) ≤ ITEMS_PER_PAGE
  ∧ ITEMS_PER_PAGE = 20.
Proof.
  split; [| done]. unfold paginatedPapers, pageSlice.
  pose proof ITEMS_PER_PAGE_pos.
  etrans; [apply slice_length |]; lia.
Qed.

(** ** Loading *)

Lemma guard_spec (url : jsstring) :
  negb (truthy url) || includes url placeholder = true ↔ misconfigured url.
Proof.
  unfold misconfigured. rewrite orb_true_iff, includes_spec.
  by destruct url; intuition.
Qed.

Lemma loadData_misconfigured (url : jsstring) (σ : State) :
  misconfigured url →
  loadData url σ
  = Done () (setIsLoading false
               (setError (Some configurationMessage)
                  (setError None (setIsLoading true σ)))).
Proof.
  intros Hurl. apply guard_spec in Hurl.
  unfold loadData, try_catch_finally, mbind, M_bind, call. simpl.
  by rewrite Hurl.
Qed.

Lemma loadData_configured (url : jsstring) (σ : State) :
  ¬ misconfigured url →
  ∃ k, loadData url σ = Awaiting url (setError None (setIsLoading true σ)) k
       ∧ ∀ s σ', k s σ' = Done () (resumed s σ').
Proof.
  intros Hurl. rewrite <- guard_spec in Hurl. apply not_true_is_false in Hurl.
  unfold loadData, try_catch_finally, mbind, M_bind, call. simpl.
  rewrite Hurl. simpl. eexists. split; [done |].
  by intros [data | [message |]] σ'.
Qed.

(** ** The component *)

Lemma misconfigured_dec (url : jsstring) :
  misconfigured url ∨ ¬ misconfigured url.
Proof.
  rewrite <- guard_spec.
  destruct (negb (truthy url) || includes url placeholder); auto.
Qed.

Section ComponentFacts.

Variable url : jsstring.

Lemma invariant_initial : invariant url initialFiber.
Proof. by split. Qed.

Lemma mountEffect_invariant (f : Fiber) :
  invariant url f →
  invariant url (mountEffect url f) ∧ load (mountEffect url f) ≠ NotStarted.
Proof.
  intros [Hdeps Hload]. unfold mountEffect.
  destruct (load f) as [|k|] eqn:Hl.
  - destruct Hload as (Hphase & Hfetched & Hpapers & Herror).
    assert (phase f ≠ Settled) as Hns by (by rewrite Hphase).
    destruct (misconfigured_dec url) as [Hurl | Hurl].
    + rewrite loadData_misconfigured by done.
      unfold invariant. simpl. rewrite Hpapers, Hfetched. auto 10.
    + destruct (loadData_configured url (hooks f) Hurl) as (k & -> & Hk).
      unfold invariant. simpl. rewrite Hpapers, Hfetched. auto 10.
  - unfold invariant. rewrite Hl. auto.
  - unfold invariant. rewrite Hl. auto.
Qed.

Lemma resetEffect_invariant (f : Fiber) :
  invariant url f → load f ≠ NotStarted →
  invariant url (withPhase Settled (resetEffect f)).
Proof.
  intros [Hdeps Hload] Hl. unfold resetEffect.
  destruct (decide (resetDeps f = Some (searchQuery (hooks f)))) as [He|He];
    unfold invariant; simpl; (split; [done |]).
  - by destruct (load f).
  - by destruct (load f).
Qed.

Lemma flushEffects_invariant (f : Fiber) :
  invariant url f → invariant url (flushEffects url f).
Proof.
  intros Hf. destruct (mountEffect_invariant f Hf).
  by apply resetEffect_invariant.
Qed.

Lemma dispatch_invariant (e : Event) (f : Fiber) :
  invariant url f → phase f = Settled → enabled e f = true →
  invariant url (dispatch e f).
Proof.
  intros [Hdeps Hload] Hphase He.
  destruct e as [value | page | s]; unfold invariant; simpl.
  - split; [done |]. destruct (load f); [| done | done].
    destruct Hload as [Hr _]. congruence.
  - split; [done |]. destruct (load f); [| done | done].
    destruct Hload as [Hr _]. congruence.
  - simpl in He. destruct (load f) as [|k|]; try done.
    destruct Hload as (Hurl & Hfetched & Hpapers & Herror & Hk).
    rewrite Hk. simpl. split; [done |]. split; [| done].
    destruct s as [data | e]; simpl; auto.
Qed.

Lemma step_invariant (f f' : Fiber) :
  invariant url f → step url f f' → invariant url f'.
Proof.
  intros Hf Hstep. revert Hf.
  destruct Hstep as [e g Hphase He | g Hphase]; intros Hg.
  - by apply dispatch_invariant.
  - by apply flushEffects_invariant.
Qed.

Lemma reachable_invariant (f : Fiber) :
  reachable url f → invariant url f.
Proof.
  revert f. apply rtc_ind_r.
  - apply invariant_initial.
  - intros g g' _ Hstep IH. by apply (step_invariant g).
Qed.

Lemma reachable_step (f f' : Fiber) :
  reachable url f → step url f f' → reachable url f'.
Proof. intros Hf Hstep. by eapply rtc_r. Qed.

Lemma reachable_mount : reachable url (flushEffects url initialFiber).
Proof. eapply reachable_step; [apply rtc_refl | by constructor]. Qed.

Lemma reachable_react (e : Event) (f : Fiber) :
  reachable url f → phase f = Settled → enabled e f = true →
  reachable url (react url e f).
Proof.
  intros Hf Hphase He. eapply reachable_step.
  - eapply reachable_step; [done | by constructor].
  - by constructor.
Qed.

(** Only the search input changes the query. *)
Lemma step_searchQuery (f f' : Fiber) :
  invariant url f → step url f f' →
  searchQuery (hooks f') ≠ searchQuery (hooks f) →
  phase f = Settled ∧ ∃ value, f' = dispatch (OnChange value) f.
Proof.
  intros Hf Hstep. revert Hf.
  destruct Hstep as [e g Hphase He | g Hphase]; intros [Hdeps Hload] Hq.
  - split; [done |]. destruct e as [value | page | s].
    + by exists value.
    + by destruct Hq.
    + destruct Hq. simpl in *. destruct (load g) as [|k|]; try done.
      destruct Hload as (_ & _ & _ & _ & Hk). rewrite Hk.
      by destruct s.
  - destruct Hq. unfold flushEffects, resetEffect, mountEffect.
    destruct (load g).
    + destruct (misconfigured_dec url) as [Hurl | Hurl].
      * rewrite loadData_misconfigured by done. simpl. by case_decide.
      * destruct (loadData_configured url (hooks g) Hurl) as (k & -> & _).
        simpl. by case_decide.
    + by case_decide.
    + by case_decide.
Qed.

(** C7, as the code has it: the reset is an effect of the render that
    follows the change of the query. The transition that changes the
    query leaves the page number as it was, and that state is rendered;
    the one step possible after it is the flush of the effects, which
    keeps the query as typed and sets the page number to 1. *)
Theorem query_change_resets_page (f f1 : Fiber) :
  reachable url f →
  step url f f1 →
  searchQuery (hooks f1) ≠ searchQuery (hooks f) →
  currentPage (hooks f1) = currentPage (hooks f)
  ∧ step url f1 (flushEffects url f1)
  ∧ ∀ f2, step url f1 f2 →
          f2 = flushEffects url f1
          ∧ searchQuery (hooks f2) = searchQuery (hooks f1)
          ∧ currentPage (hooks f2) = 1.
Proof.
  intros Hf Hstep Hq. apply reachable_invariant in Hf.
  destruct (step_searchQuery f f1 Hf Hstep Hq) as [Hphase [value ->]].
  destruct Hf as [Hdeps Hload]. specialize (Hdeps Hphase).
  assert (load f ≠ NotStarted) as Hstarted.
  { intros Hl. rewrite Hl in Hload. destruct Hload as [Hr _]. congruence. }
  split; [done |]. split; [by constructor |].
  intros f2 Hstep'.
  inversion Hstep' as [e g Hphase' _ | g _]; subst; [done |].
  split; [done |]. simpl in Hq.
  unfold flushEffects, resetEffect, mountEffect. simpl.
  destruct (load f); [done | |]; simpl; rewrite Hdeps;
    (case_decide; simpl; [exfalso; congruence | done]).
Qed.

(** C8. With a URL that is empty or still holds the placeholder,
    [loadData] completes without a request to the ingestion service and
    records the configuration message; the component never fetches, and
    once its effects have run it shows that message. *)
Theorem misconfigured_never_fetches :
  misconfigured url →
  (∀ σ, requested (loadData url σ) = None
        ∧ ∃ σ', loadData url σ = Done () σ'
                ∧ error σ' = Some configurationMessage
                ∧ isLoading σ' = false
                ∧ papers σ' = papers σ)
  ∧ (∀ f, reachable url f →
          fetched f = []
          ∧ (phase f = Settled →
             error (hooks f) = Some configurationMessage)).
Proof.
  intros Hurl. split.
  - intros σ. rewrite loadData_misconfigured by done. eauto 10.
  - intros f Hf. apply reachable_invariant in Hf as [_ Hload].
    destruct (load f) as [|k|].
    + destruct Hload as (Hphase & Hfetched & _). split; [done | congruence].
    + by destruct Hload as [Hgood _].
    + destruct Hload as [_ Hbad]. by destruct (Hbad Hurl) as (? & ? & ?).
Qed.

(** C9. A load that fails leaves no records and records a message: for
    a configuration error, once the load is over; for a fetch or parse
    error, which reaches [loadData] as the rejection of the promise it
    awaits, in the state the rejection leaves. In no reachable state are
    there records next to an error message. *)
Theorem failed_load_stores_nothing (f : Fiber) :
  reachable url f →
  (misconfigured url → load f = Finished →
   papers (hooks f) = [] ∧ error (hooks f) = Some configurationMessage)
  ∧ (∀ e, isPending (load f) = true →
          let f' := dispatch (Settle (Rejected e)) f in
          load f' = Finished
          ∧ papers (hooks f') = []
          ∧ error (hooks f') = Some (messageOf e)
          ∧ isLoading (hooks f') = false)
  ∧ (is_Some (error (hooks f)) → papers (hooks f) = []).
Proof.
  intros Hf. apply reachable_invariant in Hf as [_ Hload].
  split; [| split].
  - intros Hurl Hl. rewrite Hl in Hload. destruct Hload as [_ Hbad].
    by destruct (Hbad Hurl) as (_ & ? & ?).
  - intros e Hpending. simpl. destruct (load f) as [|k|]; try done.
    destruct Hload as (_ & _ & Hpapers & _ & Hk). by rewrite Hk.
  - intros [message Herror]. destruct (load f) as [|k|].
    + destruct Hload as (_ & _ & _ & Hnone). congruence.
    + destruct Hload as (_ & _ & _ & Hnone & _). congruence.
    + destruct Hload as [[Hpapers | Hnone] _]; [done | congruence].
Qed.

End ComponentFacts.

(** ** The Vietnamese lower-casing *)

Lemma lowerUnitVi_whiteSpace (u : N) :
  isWhiteSpace u = true → lowerUnitVi u = u.
Proof.
  unfold isWhiteSpace. rewrite existsb_exists.
  intros (v & Hin & Heq). apply N.eqb_eq in Heq as ->.
  simpl in Hin. repeat (destruct Hin as [<- | Hin]; [reflexivity |]).
  destruct Hin.
Qed.

Lemma toLowerCaseVi_keepsBlanks : keepsBlanks toLowerCaseVi.
Proof.
  intros s. induction s as [|u s IH]; simpl; [done |].
  rewrite andb_true_iff. intros [Hu Hs].
  change (toLowerCaseVi (u :: s)) with (lowerUnitVi u :: toLowerCaseVi s).
  by rewrite lowerUnitVi_whiteSpace, IH.
Qed.

Example toLowerCaseVi_name :
  toLowerCaseVi [0x110; 0x1EB6; 0x4E; 0x47; 0x20; 0x56; 0x102; 0x4E]%N
  = [0x111; 0x1EB7; 0x6E; 0x67; 0x20; 0x76; 0x103; 0x6E]%N.
Proof. reflexivity. Qed.

(** Lower-casing code unit by code unit, with white space mapped to white
    space and nothing else, commutes with trimming: for such a lower-casing
    it does not matter in which order the query is normalized. *)
Section UnitWise.

Variable lowerUnit : N → N.
Hypothesis lowerUnit_whiteSpace :
  ∀ u, isWhiteSpace (lowerUnit u) = isWhiteSpace u.

Lemma trimStart_fmap (s : jsstring) :
  trimStart (lowerUnit <$> s) = lowerUnit <$> trimStart s.
Proof.
  induction s as [|u s IH]; [done |].
  rewrite fmap_cons. simpl. rewrite lowerUnit_whiteSpace.
  by destruct (isWhiteSpace u).
Qed.

Lemma trim_fmap (s : jsstring) :
  trim (lowerUnit <$> s) = lowerUnit <$> trim s.
Proof.
  unfold trim, trimEnd.
  by rewrite trimStart_fmap, <- fmap_reverse, trimStart_fmap, fmap_reverse.
Qed.

End UnitWise.

Lemma isWhiteSpace_false (u : N) :
  isWhiteSpace u = false ↔ u ∉ whiteSpaceUnits.
Proof.
  unfold isWhiteSpace. rewrite <- not_true_iff_false, existsb_exists.
  rewrite list_elem_of_In. split.
  - intros Hno Hin. apply Hno. exists u. by rewrite N.eqb_refl.
  - intros Hno (v & Hin & Heq). apply N.eqb_eq in Heq as ->. by apply Hno.
Qed.

Lemma isWhiteSpace_lowerUnitVi (u : N) :
  isWhiteSpace (lowerUnitVi u) = isWhiteSpace u.
Proof.
  destruct (isWhiteSpace u) eqn:Hu.
  - by rewrite lowerUnitVi_whiteSpace.
  - apply isWhiteSpace_false. apply isWhiteSpace_false in Hu.
    unfold lowerUnitVi.
    repeat case_match; [| | | | done];
      repeat match goal with
             | H : _ && _ = true |- _ => apply andb_true_iff in H as [? ?]
             | H : _ || _ = true |- _ => apply orb_true_iff in H as [? | ?]
             | H : negb _ = true |- _ => apply negb_true_iff in H
             | H : (_ <=? _)%N = true |- _ => apply N.leb_le in H
             | H : (_ =? _)%N = true |- _ => apply N.eqb_eq in H
             | H : (_ =? _)%N = false |- _ => apply N.eqb_neq in H
             end;
      rewrite list_elem_of_In; simpl; lia.
Qed.

Lemma trim_toLowerCaseVi (s : jsstring) :
  trim (toLowerCaseVi s) = toLowerCaseVi (trim s).
Proof. apply trim_fmap, isWhiteSpace_lowerUnitVi. Qed.

(** ** Closed examples *)

Example trim_example : trim (lit "  Lao  phoi ") = lit "Lao  phoi".
Proof. reflexivity. Qed.

Example includes_example :
  includes (lit "benh lao phoi") (lit "lao") = true
  ∧ includes (lit "benh lao phoi") (lit "lap") = false
  ∧ includes [] [] = true.
Proof. done. Qed.

Example filteredPapers_example :
  filteredPapers toLowerCaseVi sample21 (lit " Lao ")
  = [paper "Benh lao phoi" "Tran Thi B" "Tap chi Y hoc"].
Proof. reflexivity. Qed.

(** The end-to-end scenario of the specification. *)
Example pagination_scenario :
  totalPages (filteredPapers toLowerCaseVi sample45 []) = 3
  ∧ length (paginatedPapers sample45 1) = 20%nat
  ∧ length (paginatedPapers sample45 3) = 5%nat
  ∧ paginatedPapers sample45 4 = [].
Proof. done. Qed.

(** Page numbers below 1 give negative indices, which [slice] counts from
    the end: page 0 is empty, page -1 of 45 records is records 5 to 24. *)
Example paginatedPapers_nonpositive :
  paginatedPapers sample45 0 = []
  ∧ paginatedPapers sample45 (-1) = take 20 (drop 5 sample45).
Proof. done. Qed.

(** The URL in the source passes the guard: the load starts a request. *)
Example loadData_requests_sheet :
  requested (loadData GOOGLE_SHEET_CSV_URL initialState)
  = Some GOOGLE_SHEET_CSV_URL.
Proof. reflexivity. Qed.

Lemma reachable_onPage2 : reachable GOOGLE_SHEET_CSV_URL onPage2.
Proof.
  unfold onPage2. apply reachable_react; [| by vm_compute ..].
  apply reachable_react; [| by vm_compute ..]. apply reachable_mount.
Qed.

(** The render after the query is typed shows an empty second page of the
    one match; the render after the effects shows the match. *)
Example typedLao_render :
  viewFiltered (render toLowerCaseVi (hooks typedLao))
  = [paper "Benh lao phoi" "Tran Thi B" "Tap chi Y hoc"]
  ∧ currentPage (hooks typedLao) = 2
  ∧ viewPaginated (render toLowerCaseVi (hooks typedLao)) = []
  ∧ viewPaginated (render toLowerCaseVi (hooks typedLaoSettled))
    = [paper "Benh lao phoi" "Tran Thi B" "Tap chi Y hoc"].
Proof. done. Qed.

(** ** Instances of the theorems *)

Lemma filteredPapers_keeps_matches_witness :
  trim (toLowerCaseVi (lit " Lao ")) ≠ []
  ∧ filteredPapers toLowerCaseVi sample21 (lit " Lao ")
    `sublist_of` sample21.
Proof.
  assert (trim (toLowerCaseVi (lit " Lao ")) ≠ []) as Hq by done.
  split; [exact Hq |].
  exact (proj2 (proj2
    (filteredPapers_keeps_matches toLowerCaseVi sample21 (lit " Lao ") Hq))).
Defined.

Lemma filteredPapers_identity_witness :
  keepsBlanks toLowerCaseVi
  ∧ filteredPapers toLowerCaseVi sample21 [] = sample21
  ∧ filteredPapers toLowerCaseVi sample21 (lit "   ") = sample21.
Proof.
  split; [exact toLowerCaseVi_keepsBlanks |].
  exact (filteredPapers_identity toLowerCaseVi sample21
           toLowerCaseVi_keepsBlanks).
Defined.

Lemma filteredPapers_sound_witness :
  lit " phoi " ≠ []
  ∧ Matches toLowerCaseVi (trim (toLowerCaseVi (lit " phoi ")))
      (paper "Benh lao phoi" "Tran Thi B" "Tap chi Y hoc").
Proof.
  assert (lit " phoi " ≠ []) as Hq by done.
  split; [exact Hq |].
  apply (filteredPapers_sound toLowerCaseVi sample21 (lit " phoi ") Hq).
  vm_compute. apply list_elem_of_here.
Defined.

(** C6 as stated fails: the query [" phoi "] keeps the paper on
    "Benh lao phoi", none of whose fields contains the query with its
    spaces. *)
Lemma untrimmed_query_not_contained :
  let p := paper "Benh lao phoi" "Tran Thi B" "Tap chi Y hoc" in
  let q := lit " phoi " in
  (q ≠ [] ∧ p ∈ filteredPapers toLowerCaseVi [p] q
   ∧ ¬ Matches toLowerCaseVi (toLowerCaseVi q) p)
  ∧ ¬ (∀ papers q, q ≠ [] →
         ∀ p, p ∈ filteredPapers toLowerCaseVi papers q →
              Matches toLowerCaseVi (toLowerCaseVi q) p).
Proof.
  intros p q.
  assert (¬ Matches toLowerCaseVi (toLowerCaseVi q) p) as Hno.
  { unfold Matches. rewrite <- !includes_spec. vm_compute.
    intros [? | [? | ?]]; discriminate. }
  assert (p ∈ filteredPapers toLowerCaseVi [p] q) as Hin.
  { vm_compute. apply list_elem_of_here. }
  split; [done |]. intros Hall. by apply Hno, (Hall [p] q).
Qed.

Lemma totalPagesOf_ceiling_witness :
  0 < ITEMS_PER_PAGE
  ∧ (totalPages sample21 - 1) * ITEMS_PER_PAGE
      < Z.of_nat (length sample21) ≤ totalPages sample21 * ITEMS_PER_PAGE.
Proof.
  split; [exact ITEMS_PER_PAGE_pos |].
  exact (proj1 (totalPagesOf_ceiling ITEMS_PER_PAGE ITEMS_PER_PAGE_pos
                  sample21)).
Defined.

Lemma pageSlice_beyond_witness :
  0 < ITEMS_PER_PAGE ∧ totalPages sample21 < 3
  ∧ paginatedPapers sample21 3 = [].
Proof.
  assert (totalPagesOf ITEMS_PER_PAGE sample21 < 3) as Hpage by done.
  split; [exact ITEMS_PER_PAGE_pos |]. split; [exact Hpage |].
  exact (pageSlice_beyond ITEMS_PER_PAGE ITEMS_PER_PAGE_pos sample21 3 Hpage).
Defined.

(** C7 as stated fails: typing "lao" on page 2 is a transition that
    changes the query and leaves the page number at 2, and that state is
    rendered. *)
Lemma query_change_renders_stale_page :
  (reachable GOOGLE_SHEET_CSV_URL onPage2
   ∧ step GOOGLE_SHEET_CSV_URL onPage2 typedLao
   ∧ searchQuery (hooks typedLao) ≠ searchQuery (hooks onPage2)
   ∧ currentPage (hooks typedLao) = 2
   ∧ viewPaginated (render toLowerCaseVi (hooks typedLao)) = [])
  ∧ ¬ (∀ f f', reachable GOOGLE_SHEET_CSV_URL f →
               step GOOGLE_SHEET_CSV_URL f f' →
               searchQuery (hooks f') ≠ searchQuery (hooks f) →
               currentPage (hooks f') = 1).
Proof.
  assert (step GOOGLE_SHEET_CSV_URL onPage2 typedLao) as Hstep.
  { apply step_event; by vm_compute. }
  assert (searchQuery (hooks typedLao) ≠ searchQuery (hooks onPage2)) as Hq.
  { vm_compute. discriminate. }
  split.
  - split; [apply reachable_onPage2 |]. split; [exact Hstep |].
    split; [exact Hq |]. by vm_compute.
  - intros Hall.
    pose proof (Hall onPage2 typedLao reachable_onPage2 Hstep Hq) as Hpage.
    vm_compute in Hpage. discriminate Hpage.
Qed.

Lemma query_change_resets_page_witness :
  reachable GOOGLE_SHEET_CSV_URL onPage2
  ∧ step GOOGLE_SHEET_CSV_URL onPage2 typedLao
  ∧ searchQuery (hooks typedLao) ≠ searchQuery (hooks onPage2)
  ∧ step GOOGLE_SHEET_CSV_URL typedLao typedLaoSettled
  ∧ currentPage (hooks typedLaoSettled) = 1.
Proof.
  assert (step GOOGLE_SHEET_CSV_URL onPage2 typedLao) as Hstep.
  { apply step_event; by vm_compute. }
  assert (searchQuery (hooks typedLao) ≠ searchQuery (hooks onPage2)) as Hq.
  { vm_compute. discriminate. }
  destruct (query_change_resets_page GOOGLE_SHEET_CSV_URL onPage2 typedLao
              reachable_onPage2 Hstep Hq) as (_ & Hstep' & Hnext).
  split; [exact reachable_onPage2 |]. split; [exact Hstep |].
  split; [exact Hq |]. split; [exact Hstep' |].
  exact (proj2 (proj2 (Hnext typedLaoSettled Hstep'))).
Defined.

Lemma templateURL_misconfigured : misconfigured templateURL.
Proof. by apply guard_spec. Qed.

Lemma misconfigured_never_fetches_witness :
  misconfigured templateURL
  ∧ requested (loadData templateURL initialState) = None
  ∧ fetched (flushEffects templateURL initialFiber) = [].
Proof.
  pose proof (misconfigured_never_fetches templateURL
                templateURL_misconfigured) as [Hload Hfiber].
  split; [exact templateURL_misconfigured |]. split.
  - exact (proj1 (Hload initialState)).
  - exact (proj1 (Hfiber _ (reachable_mount templateURL))).
Defined.

Lemma failed_load_stores_nothing_witness :
  reachable GOOGLE_SHEET_CSV_URL
    (flushEffects GOOGLE_SHEET_CSV_URL initialFiber)
  ∧ papers (hooks (dispatch (Settle (Rejected OtherValue))
                     (flushEffects GOOGLE_SHEET_CSV_URL initialFiber))) = []
  ∧ error (hooks (dispatch (Settle (Rejected OtherValue))
                    (flushEffects GOOGLE_SHEET_CSV_URL initialFiber)))
    = Some unknownMessage.
Proof.
  pose proof (failed_load_stores_nothing GOOGLE_SHEET_CSV_URL _
                (reachable_mount GOOGLE_SHEET_CSV_URL))
    as (_ & Hrejected & _).
  split; [exact (reachable_mount GOOGLE_SHEET_CSV_URL) |].
  destruct (Hrejected OtherValue eq_refl) as (_ & Hpapers & Herror & _).
  split; [exact Hpapers | exact Herror].
Defined.

(** * Further properties *)

(** ** Pages *)

Lemma slice_segment {A} (a : list A) (i j : Z) :
  ∃ pre post, a = pre ++ slice a i j ++ post.
Proof.
  unfold slice.
  exists (take (Z.to_nat (relativeIndex (Z.of_nat (length a)) i)) a).
  eexists. by rewrite take_drop, take_drop.
Qed.

Lemma slice_sublist {A} (a : list A) (i j : Z) : slice a i j `sublist_of` a.
Proof.
  unfold slice. etrans; [apply sublist_take | apply sublist_drop].
Qed.

Lemma Math_ceil_div_mono (n m d : Z) :
  0 < d → n ≤ m → Math_ceil_div n d ≤ Math_ceil_div m d.
Proof.
  intros Hd Hnm.
  pose proof (Math_ceil_div_bounds n d Hd).
  pose proof (Math_ceil_div_bounds m d Hd). nia.
Qed.

Section PagesMore.

Variable itemsPerPage : Z.
Hypothesis itemsPerPage_pos : 0 < itemsPerPage.

Lemma pageSlice_length_Z (l : list Paper) (page : Z) :
  1 ≤ page →
  Z.of_nat (length (pageSlice itemsPerPage l page))
  = Z.max 0 (Z.min itemsPerPage
               (Z.of_nat (length l) - (page - 1) * itemsPerPage)).
Proof.
  intros Hpage. rewrite pageSlice_take_drop by done.
  rewrite length_take, length_drop. nia.
Qed.

(** X1. On a page from 1 on, the record at position [j] is the record of
    the list at index [(page - 1) * itemsPerPage + j]; there is nothing at
    positions from [itemsPerPage] on. *)
Theorem pageSlice_lookup (l : list Paper) (page : Z) (j : nat) :
  1 ≤ page →
  (Z.of_nat j < itemsPerPage →
   pageSlice itemsPerPage l page !! j
   = l !! (Z.to_nat ((page - 1) * itemsPerPage) + j)%nat)
  ∧ (itemsPerPage ≤ Z.of_nat j → pageSlice itemsPerPage l page !! j = None).
Proof.
  intros Hpage. rewrite pageSlice_take_drop by done. split; intros Hj.
  - rewrite lookup_take_lt by lia. apply lookup_drop.
  - apply lookup_take_ge. lia.
Qed.

(** X2. Every page from 1 to the page count holds at least one record;
    the pages before the last are full, and the last holds what is left. *)
Theorem pageSlice_length_within (l : list Paper) (page : Z) :
  1 ≤ page ≤ totalPagesOf itemsPerPage l →
  1 ≤ Z.of_nat (length (pageSlice itemsPerPage l page))
  ∧ (page < totalPagesOf itemsPerPage l →
     Z.of_nat (length (pageSlice itemsPerPage l page)) = itemsPerPage)
  ∧ (page = totalPagesOf itemsPerPage l →
     Z.of_nat (length (pageSlice itemsPerPage l page))
     = Z.of_nat (length l) - (page - 1) * itemsPerPage).
Proof.
  intros Hpage. rewrite pageSlice_length_Z by lia.
  unfold totalPagesOf in *.
  pose proof (Math_ceil_div_bounds (Z.of_nat (length l)) _ itemsPerPage_pos).
  repeat split; intros; nia.
Qed.

(** X3. The page count is 0 exactly for the empty list, and never
    negative. *)
Theorem totalPagesOf_zero (l : list Paper) :
  (totalPagesOf itemsPerPage l = 0 ↔ l = [])
  ∧ 0 ≤ totalPagesOf itemsPerPage l.
Proof.
  unfold totalPagesOf.
  pose proof (Math_ceil_div_bounds (Z.of_nat (length l)) _ itemsPerPage_pos).
  split; [split |].
  - intros Hzero. apply length_zero_iff_nil. nia.
  - intros ->. by apply Math_ceil_div_0.
  - apply Math_ceil_div_nonneg; lia.
Qed.

End PagesMore.

(** X5. Whatever the page number, zero and negative ones included, a page
    is a run of consecutive records of the list; page 0 is empty. *)
Theorem paginatedPapers_segment (l : list Paper) :
  (∀ page, ∃ pre post, l = pre ++ paginatedPapers l page ++ post)
  ∧ paginatedPapers l 0 = [].
Proof.
  split.
  - intros page. apply slice_segment.
  - unfold paginatedPapers, pageSlice, slice, relativeIndex. simpl.
    rewrite Z.min_l by lia.
    replace (Z.max (0 - _) 0) with 0 by lia. apply take_0.
Qed.

(** ** Trimming *)

Lemma trimStart_idemp (s : jsstring) : trimStart (trimStart s) = trimStart s.
Proof.
  induction s as [|u s IH]; [done |]. simpl.
  destruct (isWhiteSpace u) eqn:Hu; [done |]. simpl. by rewrite Hu.
Qed.

(** Trimming the start of a string that ends in a character that is not
    white space leaves that character in place. *)
Lemma trimStart_snoc (r : jsstring) (u : N) :
  isWhiteSpace u = false → ∃ r', trimStart (r ++ [u]) = r' ++ [u].
Proof.
  intros Hu. induction r as [|v r IH]; simpl.
  - rewrite Hu. by exists [].
  - destruct (isWhiteSpace v); [done |]. by exists (v :: r).
Qed.

Lemma trimStart_trimEnd (s : jsstring) :
  trimStart s = s → trimStart (trimEnd s) = trimEnd s.
Proof.
  destruct s as [|u s]; [done |]. simpl.
  destruct (isWhiteSpace u) eqn:Hu.
  - intros Heq. exfalso.
    assert (∀ t : jsstring, length (trimStart t) ≤ length t)%nat as Hlen.
    { intros t. induction t as [|v t IH]; simpl; [done |].
      destruct (isWhiteSpace v); simpl; lia. }
    specialize (Hlen s). rewrite Heq in Hlen. simpl in Hlen. lia.
  - intros _. unfold trimEnd. rewrite reverse_cons.
    destruct (trimStart_snoc (reverse s) u Hu) as [r' ->].
    rewrite reverse_snoc. simpl. by rewrite Hu.
Qed.

Lemma trim_idemp (s : jsstring) : trim (trim s) = trim s.
Proof.
  unfold trim.
  rewrite (trimStart_trimEnd (trimStart s)) by apply trimStart_idemp.
  unfold trimEnd. by rewrite reverse_involutive, trimStart_idemp.
Qed.

(** ** Queries *)

Lemma substring_trans (a b c : jsstring) :
  substring a b → substring b c → substring a c.
Proof.
  intros (pre & post & ->) (pre' & post' & ->).
  exists (pre' ++ pre), (post ++ post'). by rewrite <- !(assoc_L (++)).
Qed.

Lemma substring_of_nil (q : jsstring) : substring q [] → q = [].
Proof.
  intros (pre & post & Heq). symmetry in Heq.
  apply app_eq_nil in Heq as [_ Heq]. by apply app_eq_nil in Heq as [? _].
Qed.

Lemma filter_sublist_mono {A} (keep keep' : A → bool) (l : list A) :
  (∀ x, keep' x = true → keep x = true) →
  List.filter keep' l `sublist_of` List.filter keep l.
Proof.
  intros Himp. induction l as [|x l IH]; simpl; [constructor |].
  destruct (keep' x) eqn:Hx.
  - rewrite (Himp x Hx). by constructor.
  - destruct (keep x); [by constructor | done].
Qed.

Section QueryMore.

Variable toLowerCase : jsstring → jsstring.

Lemma filteredPapers_sublist (papers : list Paper) (q : jsstring) :
  filteredPapers toLowerCase papers q `sublist_of` papers.
Proof.
  destruct (decide (trim (toLowerCase q) = [])) as [Hq | Hq].
  - by rewrite filteredPapers_empty_query.
  - rewrite filteredPapers_filter by done. apply filter_sublist_of.
Qed.

(** X4. Filtering never gives more records, nor more pages, than there
    are. *)
Theorem filteredPapers_no_more_pages (papers : list Paper) (q : jsstring) :
  (length (filteredPapers toLowerCase papers q) ≤ length papers)%nat
  ∧ totalPages (filteredPapers toLowerCase papers q) ≤ totalPages papers.
Proof.
  pose proof (sublist_length _ _ (filteredPapers_sublist papers q)) as Hlen.
  split; [done |]. apply Math_ceil_div_mono; [done | lia].
Qed.

(** X6. A longer query narrows the result: if the normalized query of [q]
    occurs in the normalized query of [q'], the records kept for [q'] are
    a subsequence of the records kept for [q]. *)
Theorem filteredPapers_narrows (papers : list Paper) (q q' : jsstring) :
  substring (normalized toLowerCase q) (normalized toLowerCase q') →
  filteredPapers toLowerCase papers q'
  `sublist_of` filteredPapers toLowerCase papers q.
Proof.
  unfold normalized. intros Hsub.
  destruct (decide (trim (toLowerCase q) = [])) as [Hq | Hq].
  - rewrite (filteredPapers_empty_query _ _ q) by done.
    apply filteredPapers_sublist.
  - assert (trim (toLowerCase q') ≠ []) as Hq'.
    { intros Heq. rewrite Heq in Hsub. by apply substring_of_nil in Hsub. }
    rewrite !filteredPapers_filter by done.
    apply filter_sublist_mono. intros p.
    rewrite !matchesQuery_spec. unfold Matches.
    intros [Hp | [Hp | Hp]]; eauto using substring_trans.
Qed.

(** X7. White space around the query does not change the result (for a
    lower-casing that commutes with trimming, as the built-in does). *)
Theorem filteredPapers_trimmed_query (papers : list Paper) (q : jsstring) :
  commutesWithTrim toLowerCase →
  filteredPapers toLowerCase papers (trim q)
  = filteredPapers toLowerCase papers q.
Proof.
  intros Hcomm.
  assert (trim (toLowerCase (trim q)) = trim (toLowerCase q)) as Hq.
  { by rewrite (Hcomm (trim q)), trim_idemp, <- Hcomm. }
  unfold filteredPapers. by rewrite Hq.
Qed.

(** X8. The records a render hands to the table, whatever the page
    number, are loaded records in their loaded order, and each matches
    the normalized query. *)
Theorem render_shows_matches (σ : State) :
  viewPaginated (render toLowerCase σ) `sublist_of` papers σ
  ∧ ∀ p, p ∈ viewPaginated (render toLowerCase σ) →
         p ∈ papers σ
         ∧ Matches toLowerCase (normalized toLowerCase (searchQuery σ)) p.
Proof.
  assert (viewPaginated (render toLowerCase σ)
          `sublist_of` filteredPapers toLowerCase (papers σ) (searchQuery σ))
    as Hpage by apply slice_sublist.
  split.
  - etrans; [exact Hpage | apply filteredPapers_sublist].
  - intros p Hp. apply filteredPapers_elem_of.
    by eapply elem_of_sublist.
Qed.

End QueryMore.

(** ** The load and the screen *)

Lemma filteredPapers_nil (toLowerCase : jsstring → jsstring) (q : jsstring) :
  filteredPapers toLowerCase [] q = [].
Proof. unfold filteredPapers. by destruct (negb _). Qed.

Lemma paginatedPapers_first (l : list Paper) :
  paginatedPapers l 1 = take 20 l.
Proof.
  unfold paginatedPapers.
  by rewrite pageSlice_take_drop by (done || apply ITEMS_PER_PAGE_pos).
Qed.

Section ComponentMore.

Variable url : jsstring.

Lemma loadInvariant_step (f f' : Fiber) :
  invariant url f → loadInvariant url f → step url f f' →
  loadInvariant url f'.
Proof.
  intros Hinv Hload Hstep. revert Hinv Hload.
  destruct Hstep as [e g Hphase He | g Hphase];
    intros [_ Hinv]; unfold loadInvariant.
  - destruct e as [value | page | s]; simpl.
    + by destruct (load g).
    + by destruct (load g).
    + simpl in He. destruct (load g) as [|k|]; try done.
      destruct Hinv as (Hurl & _ & _ & _ & Hk).
      intros (_ & _ & Hfetched). rewrite Hk. simpl.
      split; [by destruct s | by right].
  - unfold flushEffects, resetEffect, mountEffect.
    destruct (load g) as [|k|] eqn:Hl.
    + intros (_ & _ & Hfetched).
      destruct (misconfigured_dec url) as [Hurl | Hurl].
      * rewrite loadData_misconfigured by done. simpl.
        case_decide; simpl; (split; [done | by left]).
      * destruct (loadData_configured url (hooks g) Hurl) as (k & -> & _).
        simpl. rewrite Hfetched. by case_decide.
    + intros Hload. case_decide; simpl; by rewrite Hl.
    + intros Hload. case_decide; simpl; by rewrite Hl.
Qed.

Lemma reachable_invariants (f : Fiber) :
  reachable url f → invariant url f ∧ loadInvariant url f.
Proof.
  revert f. apply rtc_ind_r.
  - split; [apply invariant_initial | done].
  - intros g g' _ Hstep [Hinv Hload]. split.
    + by apply (step_invariant url g).
    + by apply (loadInvariant_step g).
Qed.

(** X9. For a URL that passes the guard, [loadData] makes its request to
    exactly that URL, with the spinner on and the error cleared while it
    waits; when the request is fulfilled it stores exactly the records it
    got and turns the spinner off, and it leaves the query, the page
    number and the error as they then are. *)
Theorem loadData_requests (σ : State) :
  ¬ misconfigured url →
  ∃ σ' k,
    loadData url σ = Awaiting url σ' k
    ∧ isLoading σ' = true ∧ error σ' = None ∧ papers σ' = papers σ
    ∧ ∀ data σ2, ∃ σ3,
        k (Fulfilled data) σ2 = Done () σ3
        ∧ papers σ3 = data ∧ isLoading σ3 = false
        ∧ error σ3 = error σ2
        ∧ searchQuery σ3 = searchQuery σ2
        ∧ currentPage σ3 = currentPage σ2.
Proof.
  intros Hurl. destruct (loadData_configured url σ Hurl) as (k & -> & Hk).
  eexists _, k. repeat split; try done.
  intros data σ2. rewrite Hk. by eexists.
Qed.

(** X10. When the request is fulfilled, the component holds exactly the
    records received, shows no error and no spinner, and the query and
    the page number are as they were. *)
Theorem fulfilled_load_stores_data (f : Fiber) (data : list Paper) :
  reachable url f →
  isPending (load f) = true →
  let f' := dispatch (Settle (Fulfilled data)) f in
  load f' = Finished
  ∧ papers (hooks f') = data
  ∧ error (hooks f') = None
  ∧ isLoading (hooks f') = false
  ∧ searchQuery (hooks f') = searchQuery (hooks f)
  ∧ currentPage (hooks f') = currentPage (hooks f).
Proof.
  intros Hf Hpending. apply reachable_invariant in Hf as [_ Hinv]. simpl.
  destruct (load f) as [|k|]; try done.
  destruct Hinv as (_ & _ & _ & Herror & Hk). by rewrite Hk.
Qed.

(** X11. The component asks the ingestion service at most once, and only
    for the configured URL; once its effects have run with a URL that
    passes the guard, it has asked exactly once. There is no retry. *)
Theorem fetches_at_most_once (f : Fiber) :
  reachable url f →
  (fetched f = [] ∨ fetched f = [url])
  ∧ (phase f = Settled → ¬ misconfigured url → fetched f = [url]).
Proof.
  intros Hf. apply reachable_invariants in Hf as [[_ Hinv] Hload].
  unfold loadInvariant in Hload.
  destruct (load f) as [|k|].
  - destruct Hinv as (Hphase & Hfetched & _). split; [by left | congruence].
  - destruct Hload as (_ & _ & Hfetched). by split; [right |].
  - destruct Hload as [_ [[Hfetched Hurl] | [Hfetched Hurl]]].
    + by split; [left |].
    + by split; [right |].
Qed.

(** X12. In every state the component reaches, the screen shows exactly
    one panel, and it is the spinner exactly as long as the load is not
    over. *)
Theorem screen_one_panel (toLowerCase : jsstring → jsstring) (f : Fiber) :
  reachable url f →
  (∃ panel, screen toLowerCase (hooks f) = [panel])
  ∧ (screen toLowerCase (hooks f) = [LoadingSpinner] ↔ load f ≠ Finished).
Proof.
  intros Hf. apply reachable_invariants in Hf as [_ Hload].
  unfold loadInvariant in Hload. unfold screen.
  destruct (load f) as [|k|].
  - destruct Hload as (-> & -> & _). simpl. split; [by eexists | done].
  - destruct Hload as (-> & -> & _). simpl. split; [by eexists | done].
  - destruct Hload as [-> _]. simpl.
    destruct (error (hooks f)) as [message |]; simpl.
    + destruct (truthy message); simpl.
      * split; [by eexists | done].
      * split; [by eexists |]. split; [| done].
        by destruct (0 <? _).
    + split; [by eexists |]. split; [| done]. by destruct (0 <? _).
Qed.

(** X13. Once the load is over the records, the error and the spinner
    flag never change again, and no further request is made: there is no
    reload. *)
Theorem finished_load_is_final (f f' : Fiber) :
  load f = Finished →
  rtc (step url) f f' →
  load f' = Finished
  ∧ papers (hooks f') = papers (hooks f)
  ∧ error (hooks f') = error (hooks f)
  ∧ isLoading (hooks f') = isLoading (hooks f)
  ∧ fetched f' = fetched f.
Proof.
  intros Hl Hsteps. revert f' Hsteps. apply rtc_ind_r; [done |].
  intros g g' _ Hstep (Hlg & Hpapers & Herror & Hloading & Hfetched).
  rewrite <- Hpapers, <- Herror, <- Hloading, <- Hfetched.
  clear Hpapers Herror Hloading Hfetched. revert Hlg.
  destruct Hstep as [e h Hphase He | h Hphase]; intros Hlh.
  - destruct e as [value | page | s]; simpl; try done.
    simpl in He. by rewrite Hlh in He.
  - unfold flushEffects, resetEffect, mountEffect. rewrite Hlh.
    by case_decide.
Qed.

Lemma load_mountEffect (f : Fiber) : load (mountEffect url f) ≠ NotStarted.
Proof.
  unfold mountEffect. destruct (load f) as [|k|] eqn:Hl; try by rewrite Hl.
  destruct (misconfigured_dec url) as [Hurl | Hurl].
  - by rewrite loadData_misconfigured.
  - by destruct (loadData_configured url (hooks f) Hurl) as (k & -> & _).
Qed.

Lemma mountEffect_started (f : Fiber) :
  load f ≠ NotStarted → mountEffect url f = f.
Proof. unfold mountEffect. by destruct (load f). Qed.

Lemma resetEffect_deps (f : Fiber) :
  resetDeps (resetEffect f) = Some (searchQuery (hooks (resetEffect f)))
  ∧ load (resetEffect f) = load f.
Proof. unfold resetEffect. by case_decide. Qed.

Lemma resetEffect_fixed (f : Fiber) :
  resetDeps f = Some (searchQuery (hooks f)) → resetEffect f = f.
Proof. intros Hdeps. unfold resetEffect. by rewrite decide_True. Qed.

(** X14. Flushing the effects a second time changes nothing: the state
    the reset effect sets does not set the effects off again. *)
Theorem flushEffects_idemp (f : Fiber) :
  flushEffects url (flushEffects url f) = flushEffects url f.
Proof.
  unfold flushEffects.
  destruct (resetEffect_deps (mountEffect url f)) as [Hdeps Hload].
  pose proof (load_mountEffect f) as Hstarted. rewrite <- Hload in Hstarted.
  rewrite mountEffect_started by done.
  by rewrite resetEffect_fixed.
Qed.

(** X15. A click on a page control sets the page number to the page
    clicked, the effects leave it there, and the query, the records and
    with them the filtered list stay as they are. *)
Theorem page_change_keeps_query (toLowerCase : jsstring → jsstring)
    (f : Fiber) (page : Z) :
  reachable url f →
  phase f = Settled →
  let f' := react url (OnPageChange page) f in
  currentPage (hooks f') = page
  ∧ searchQuery (hooks f') = searchQuery (hooks f)
  ∧ papers (hooks f') = papers (hooks f)
  ∧ viewFiltered (render toLowerCase (hooks f'))
    = viewFiltered (render toLowerCase (hooks f)).
Proof.
  intros Hf Hphase. apply reachable_invariant in Hf as [Hdeps Hinv].
  specialize (Hdeps Hphase). simpl.
  unfold react, flushEffects, resetEffect, mountEffect. simpl.
  destruct (load f) as [|k|]; simpl.
  - destruct Hinv as [Hr _]. congruence.
  - by rewrite decide_True by done.
  - by rewrite decide_True by done.
Qed.

(** X16. After a change of the query and the effects of its render, the
    table gets the first page of the new result: its first 20 records. *)
Theorem query_change_shows_first_page (toLowerCase : jsstring → jsstring)
    (f : Fiber) (value : jsstring) :
  reachable url f →
  phase f = Settled →
  value ≠ searchQuery (hooks f) →
  viewPaginated (render toLowerCase (hooks (react url (OnChange value) f)))
  = take 20 (filteredPapers toLowerCase (papers (hooks f)) value).
Proof.
  intros Hf Hphase Hvalue. apply reachable_invariant in Hf as [Hdeps Hinv].
  specialize (Hdeps Hphase).
  assert (resetDeps f ≠ Some value) as Hne by congruence.
  unfold react, flushEffects, resetEffect, mountEffect. simpl.
  destruct (load f) as [|k|]; simpl.
  - destruct Hinv as [Hr _]. congruence.
  - rewrite decide_False by done. simpl. apply paginatedPapers_first.
  - rewrite decide_False by done. simpl. apply paginatedPapers_first.
Qed.

(** X17. An input event that carries the query already held changes
    nothing: the page number is not reset. *)
Theorem same_query_keeps_page (f : Fiber) :
  reachable url f →
  phase f = Settled →
  react url (OnChange (searchQuery (hooks f))) f = f.
Proof.
  intros Hf Hphase. apply reachable_invariant in Hf as [Hdeps Hinv].
  specialize (Hdeps Hphase).
  unfold react, flushEffects, resetEffect, mountEffect. simpl.
  destruct f as [[ps q b err page] deps l fs ph]. simpl in *. subst.
  destruct l as [|k|]; simpl.
  - destruct Hinv as [Hr _]. congruence.
  - by rewrite decide_True by done.
  - by rewrite decide_True by done.
Qed.

(** X18. When the request is rejected, the screen shows the error panel
    with the message recorded, unless that message is the empty string:
    then it shows "No Results Found". *)
Theorem rejected_load_screen (toLowerCase : jsstring → jsstring) (f : Fiber)
    (e : Thrown) :
  reachable url f →
  isPending (load f) = true →
  screen toLowerCase (hooks (dispatch (Settle (Rejected e)) f))
  = if truthy (messageOf e) then [ErrorPanel (messageOf e)] else [NoResults].
Proof.
  intros Hf Hpending. apply reachable_invariant in Hf as [_ Hinv]. simpl.
  destruct (load f) as [|k|]; try done.
  destruct Hinv as (_ & _ & Hpapers & _ & Hk). rewrite Hk.
  unfold screen, render. simpl. rewrite Hpapers, filteredPapers_nil.
  by destruct (truthy (messageOf e)).
Qed.

End ComponentMore.

(** ** Instances of the further properties *)

Lemma sheetURL_configured : ¬ misconfigured GOOGLE_SHEET_CSV_URL.
Proof. intros Hurl. apply guard_spec in Hurl. by vm_compute in Hurl. Qed.

Lemma reachable_fetching : reachable GOOGLE_SHEET_CSV_URL fetching.
Proof. apply reachable_mount. Qed.

Lemma reachable_loaded21 : reachable GOOGLE_SHEET_CSV_URL loaded21.
Proof.
  unfold loaded21. apply reachable_react; [| by vm_compute ..].
  apply reachable_fetching.
Qed.

Lemma loaded21_to_onPage2 : rtc (step GOOGLE_SHEET_CSV_URL) loaded21 onPage2.
Proof.
  change onPage2 with (react GOOGLE_SHEET_CSV_URL (OnPageChange 2) loaded21).
  eapply rtc_l; [apply (step_event _ (OnPageChange 2)); by vm_compute |].
  apply rtc_once, step_effects. by vm_compute.
Qed.

Lemma pageSlice_lookup_witness :
  0 < ITEMS_PER_PAGE ∧ 1 ≤ 2
  ∧ paginatedPapers sample21 2 !! 0%nat = sample21 !! 20%nat.
Proof.
  split; [exact ITEMS_PER_PAGE_pos |]. split; [lia |].
  exact (proj1 (pageSlice_lookup ITEMS_PER_PAGE ITEMS_PER_PAGE_pos sample21
                  2 0 ltac:(lia)) ltac:(by vm_compute)).
Defined.

Lemma pageSlice_length_within_witness :
  0 < ITEMS_PER_PAGE ∧ 1 ≤ 2 ≤ totalPages sample21
  ∧ 1 ≤ Z.of_nat (length (paginatedPapers sample21 2)).
Proof.
  assert (1 ≤ 2 ≤ totalPagesOf ITEMS_PER_PAGE sample21) as Hpage
    by by vm_compute.
  split; [exact ITEMS_PER_PAGE_pos |]. split; [exact Hpage |].
  exact (proj1 (pageSlice_length_within ITEMS_PER_PAGE ITEMS_PER_PAGE_pos
                  sample21 2 Hpage)).
Defined.

Lemma totalPagesOf_zero_witness :
  0 < ITEMS_PER_PAGE ∧ (totalPages sample21 = 0 ↔ sample21 = []).
Proof.
  split; [exact ITEMS_PER_PAGE_pos |].
  exact (proj1 (totalPagesOf_zero ITEMS_PER_PAGE ITEMS_PER_PAGE_pos
                  sample21)).
Defined.

Lemma filteredPapers_narrows_witness :
  substring (normalized toLowerCaseVi (lit "La"))
    (normalized toLowerCaseVi (lit " lao "))
  ∧ filteredPapers toLowerCaseVi sample21 (lit " lao ")
    `sublist_of` filteredPapers toLowerCaseVi sample21 (lit "La").
Proof.
  assert (substring (normalized toLowerCaseVi (lit "La"))
            (normalized toLowerCaseVi (lit " lao "))) as Hsub.
  { by exists [], (lit "o"). }
  split; [exact Hsub |].
  exact (filteredPapers_narrows toLowerCaseVi sample21 _ _ Hsub).
Defined.

Lemma filteredPapers_trimmed_query_witness :
  commutesWithTrim toLowerCaseVi
  ∧ filteredPapers toLowerCaseVi sample21 (trim (lit " Lao "))
    = filteredPapers toLowerCaseVi sample21 (lit " Lao ").
Proof.
  split; [exact trim_toLowerCaseVi |].
  exact (filteredPapers_trimmed_query toLowerCaseVi sample21 (lit " Lao ")
           trim_toLowerCaseVi).
Defined.

Lemma loadData_requests_witness :
  ¬ misconfigured GOOGLE_SHEET_CSV_URL
  ∧ ∃ σ' k, loadData GOOGLE_SHEET_CSV_URL initialState
            = Awaiting GOOGLE_SHEET_CSV_URL σ' k.
Proof.
  split; [exact sheetURL_configured |].
  destruct (loadData_requests GOOGLE_SHEET_CSV_URL initialState
              sheetURL_configured) as (σ' & k & Hrun & _).
  by exists σ', k.
Defined.

Lemma fulfilled_load_stores_data_witness :
  reachable GOOGLE_SHEET_CSV_URL fetching
  ∧ isPending (load fetching) = true
  ∧ papers (hooks (dispatch (Settle (Fulfilled sample21)) fetching))
    = sample21.
Proof.
  split; [exact reachable_fetching |]. split; [reflexivity |].
  exact (proj1 (proj2
    (fulfilled_load_stores_data GOOGLE_SHEET_CSV_URL fetching sample21
       reachable_fetching eq_refl))).
Defined.

Lemma fetches_at_most_once_witness :
  reachable GOOGLE_SHEET_CSV_URL onPage2
  ∧ (fetched onPage2 = [] ∨ fetched onPage2 = [GOOGLE_SHEET_CSV_URL]).
Proof.
  split; [exact reachable_onPage2 |].
  exact (proj1 (fetches_at_most_once GOOGLE_SHEET_CSV_URL onPage2
                  reachable_onPage2)).
Defined.

Lemma screen_one_panel_witness :
  reachable GOOGLE_SHEET_CSV_URL onPage2
  ∧ ∃ panel, screen toLowerCaseVi (hooks onPage2) = [panel].
Proof.
  split; [exact reachable_onPage2 |].
  exact (proj1 (screen_one_panel GOOGLE_SHEET_CSV_URL toLowerCaseVi onPage2
                  reachable_onPage2)).
Defined.

Lemma finished_load_is_final_witness :
  load loaded21 = Finished
  ∧ rtc (step GOOGLE_SHEET_CSV_URL) loaded21 onPage2
  ∧ papers (hooks onPage2) = papers (hooks loaded21).
Proof.
  assert (load loaded21 = Finished) as Hl by by vm_compute.
  split; [exact Hl |]. split; [exact loaded21_to_onPage2 |].
  exact (proj1 (proj2
    (finished_load_is_final GOOGLE_SHEET_CSV_URL loaded21 onPage2 Hl
       loaded21_to_onPage2))).
Defined.

Lemma page_change_keeps_query_witness :
  reachable GOOGLE_SHEET_CSV_URL loaded21
  ∧ phase loaded21 = Settled
  ∧ currentPage (hooks (react GOOGLE_SHEET_CSV_URL (OnPageChange 2) loaded21))
    = 2.
Proof.
  assert (phase loaded21 = Settled) as Hphase by by vm_compute.
  split; [exact reachable_loaded21 |]. split; [exact Hphase |].
  exact (proj1
    (page_change_keeps_query GOOGLE_SHEET_CSV_URL toLowerCaseVi loaded21 2
       reachable_loaded21 Hphase)).
Defined.

Lemma query_change_shows_first_page_witness :
  reachable GOOGLE_SHEET_CSV_URL onPage2
  ∧ phase onPage2 = Settled
  ∧ lit "lao" ≠ searchQuery (hooks onPage2)
  ∧ viewPaginated
      (render toLowerCaseVi
         (hooks (react GOOGLE_SHEET_CSV_URL (OnChange (lit "lao")) onPage2)))
    = take 20 (filteredPapers toLowerCaseVi (papers (hooks onPage2))
                 (lit "lao")).
Proof.
  assert (phase onPage2 = Settled) as Hphase by by vm_compute.
  assert (lit "lao" ≠ searchQuery (hooks onPage2)) as Hq.
  { vm_compute. discriminate. }
  split; [exact reachable_onPage2 |]. split; [exact Hphase |].
  split; [exact Hq |].
  exact (query_change_shows_first_page GOOGLE_SHEET_CSV_URL toLowerCaseVi
           onPage2 (lit "lao") reachable_onPage2 Hphase Hq).
Defined.

Lemma same_query_keeps_page_witness :
  reachable GOOGLE_SHEET_CSV_URL onPage2
  ∧ phase onPage2 = Settled
  ∧ react GOOGLE_SHEET_CSV_URL (OnChange (searchQuery (hooks onPage2)))
      onPage2
    = onPage2.
Proof.
  assert (phase onPage2 = Settled) as Hphase by by vm_compute.
  split; [exact reachable_onPage2 |]. split; [exact Hphase |].
  exact (same_query_keeps_page GOOGLE_SHEET_CSV_URL onPage2
           reachable_onPage2 Hphase).
Defined.

Lemma rejected_load_screen_witness :
  reachable GOOGLE_SHEET_CSV_URL fetching
  ∧ isPending (load fetching) = true
  ∧ screen toLowerCaseVi
      (hooks (dispatch (Settle (Rejected (ErrorObject []))) fetching))
    = [NoResults].
Proof.
  split; [exact reachable_fetching |]. split; [reflexivity |].
  exact (rejected_load_screen GOOGLE_SHEET_CSV_URL toLowerCaseVi fetching
           (ErrorObject []) reachable_fetching eq_refl).
Defined.

(** ** The table and the page controls *)

Lemma totalPages_positive (l : list Paper) : l ≠ [] → 1 ≤ totalPages l.
Proof.
  intros Hl. unfold totalPages, totalPagesOf.
  pose proof (Math_ceil_div_bounds (Z.of_nat (length l)) _
                ITEMS_PER_PAGE_pos).
  assert (length l ≠ 0)%nat by by rewrite length_zero_iff_nil.
  nia.
Qed.

Lemma paginatedPapers_past_end (l : list Paper) (page : Z) :
  totalPages l < page → paginatedPapers l page = [].
Proof.
  intros Hpage. unfold paginatedPapers, totalPages, totalPagesOf in *.
  pose proof (Math_ceil_div_bounds (Z.of_nat (length l)) _
                ITEMS_PER_PAGE_pos).
  pose proof (Math_ceil_div_nonneg (Z.of_nat (length l)) _
                ltac:(lia) ITEMS_PER_PAGE_pos).
  rewrite pageSlice_take_drop by (lia || apply ITEMS_PER_PAGE_pos).
  rewrite drop_ge by nia. apply take_nil.
Qed.

Section Table.

Variable toLowerCase : jsstring → jsstring.

(** X19. The table and the page controls are on the screen only when the
    load is over without an error message and the filtered list is not
    empty; they get the current page number, a page count of at least 1
    and the slice of the filtered list for that page. *)
Theorem screen_results_props (σ : State) (shown : list Paper) (page pages : Z) :
  Results shown page pages ∈ screen toLowerCase σ →
  let filtered := filteredPapers toLowerCase (papers σ) (searchQuery σ) in
  isLoading σ = false
  ∧ truthyError (error σ) = false
  ∧ filtered ≠ []
  ∧ page = currentPage σ
  ∧ pages = totalPages filtered ∧ 1 ≤ pages
  ∧ shown = paginatedPapers filtered page.
Proof.
  unfold screen, render. simpl.
  set (filtered := filteredPapers toLowerCase (papers σ) (searchQuery σ)).
  intros Hin.
  assert (Results shown page pages
          ∈ (if negb (isLoading σ) && negb (truthyError (error σ))
             then [if 0 <? Z.of_nat (length filtered)
                   then Results (paginatedPapers filtered (currentPage σ))
                          (currentPage σ) (totalPages filtered)
                   else NoResults]
             else [])) as Hres.
  { rewrite !elem_of_app in Hin. destruct Hin as [Hin | [Hin | Hin]].
    - destruct (isLoading σ); [| by apply elem_of_nil in Hin].
      apply list_elem_of_singleton in Hin. discriminate Hin.
    - destruct (error σ) as [message |]; [| by apply elem_of_nil in Hin].
      destruct (truthy message); [| by apply elem_of_nil in Hin].
      apply list_elem_of_singleton in Hin. discriminate Hin.
    - exact Hin. }
  clear Hin. destruct (isLoading σ); [by apply elem_of_nil in Hres |].
  destruct (truthyError (error σ)); [by apply elem_of_nil in Hres |].
  simpl in Hres. apply list_elem_of_singleton in Hres.
  destruct (Z.ltb_spec 0 (Z.of_nat (length filtered))) as [Hlen | Hlen];
    [| discriminate Hres].
  injection Hres as -> -> ->.
  assert (filtered ≠ []) as Hne by (intros Heq; rewrite Heq in Hlen; done).
  repeat split; try done. by apply totalPages_positive.
Qed.

(** X20. A page number past the page count is not corrected: with the
    load over, no error message and a filtered list that is not empty,
    the screen shows the table with no rows, not "No Results Found". *)
Theorem screen_page_past_end (σ : State) :
  let filtered := filteredPapers toLowerCase (papers σ) (searchQuery σ) in
  isLoading σ = false →
  truthyError (error σ) = false →
  filtered ≠ [] →
  totalPages filtered < currentPage σ →
  screen toLowerCase σ = [Results [] (currentPage σ) (totalPages filtered)].
Proof.
  intros filtered Hloading Herror Hne Hpage. unfold screen, render. simpl.
  fold filtered. rewrite Hloading, Herror. simpl.
  assert (match error σ with
          | Some message => if truthy message then [ErrorPanel message] else []
          | None => []
          end = []) as ->.
  { destruct (error σ) as [message |]; [| done]. simpl in Herror.
    by rewrite Herror. }
  simpl. rewrite paginatedPapers_past_end by done.
  destruct (Z.ltb_spec 0 (Z.of_nat (length filtered))) as [Hlen | Hlen];
    [done |].
  destruct filtered; [done | simpl in Hlen; lia].
Qed.

End Table.

Lemma screen_results_props_witness :
  Results (paginatedPapers sample21 2) 2 2
    ∈ screen toLowerCaseVi (hooks onPage2)
  ∧ isLoading (hooks onPage2) = false.
Proof.
  assert (Results (paginatedPapers sample21 2) 2 2
            ∈ screen toLowerCaseVi (hooks onPage2)) as Hin.
  { vm_compute. apply list_elem_of_here. }
  split; [exact Hin |].
  exact (proj1 (screen_results_props toLowerCaseVi (hooks onPage2) _ _ _ Hin)).
Defined.

Lemma screen_page_past_end_witness :
  isLoading (hooks typedLao) = false
  ∧ truthyError (error (hooks typedLao)) = false
  ∧ filteredPapers toLowerCaseVi (papers (hooks typedLao))
      (searchQuery (hooks typedLao)) ≠ []
  ∧ totalPages (filteredPapers toLowerCaseVi (papers (hooks typedLao))
                  (searchQuery (hooks typedLao)))
    < currentPage (hooks typedLao)
  ∧ screen toLowerCaseVi (hooks typedLao) = [Results [] 2 1].
Proof.
  assert (filteredPapers toLowerCaseVi (papers (hooks typedLao))
            (searchQuery (hooks typedLao)) ≠ []) as Hne.
  { vm_compute. discriminate. }
  assert (totalPages (filteredPapers toLowerCaseVi (papers (hooks typedLao))
                        (searchQuery (hooks typedLao)))
          < currentPage (hooks typedLao)) as Hpage by by vm_compute.
  split; [reflexivity |]. split; [reflexivity |]. split; [exact Hne |].
  split; [exact Hpage |].
  exact (screen_page_past_end toLowerCaseVi (hooks typedLao) eq_refl eq_refl
           Hne Hpage).
Defined.
